(** * A shallow embedding of kubex (k8sexec)

    The build consists of the [cmd] package (the [run] orchestrator),
    [k8sexec/k8sexec.go] (the cluster adapter, the executor and the
    exit-code table) and a [main.go] that calls [cmd.Execute].  The cluster
    API client is an external collaborator: it is modelled as a record of
    pure functions ([Client]); everything the program itself computes on top
    of it is translated from the Go source. *)

From stdpp Require Import base list gmap strings pretty.
From Stdlib Require Import ZArith Ascii.

Open Scope Z_scope.

(** ** Go errors

    [exec2.CodeExitError{Err, Code}] carries a remote exit code; its
    [Error()] is the text of the wrapped [Err].  Other errors are plain
    messages, and an error may wrap another one ([%w]), which [errors.As]
    walks through. *)
Inductive GoError :=
| CodeExitError (msg : string) (Code : Z)
| PlainError (msg : string)
| WrappedError (msg : string) (inner : GoError).

Definition Error (e : GoError) : string :=
  match e with
  | CodeExitError msg _ => msg
  | PlainError msg => msg
  | WrappedError msg _ => msg
  end.

(** [errors.As(err, &e)] with [e : exec2.CodeExitError]: the first error of
    the unwrap chain that is a [CodeExitError]. *)
Fixpoint errors_As_CodeExitError (e : GoError) : option GoError :=
  match e with
  | CodeExitError _ _ => Some e
  | PlainError _ => None
  | WrappedError _ inner => errors_As_CodeExitError inner
  end.

Definition exit_code_of (e : GoError) : Z :=
  match e with CodeExitError _ c => c | _ => -1 end.

(** ** The exit-code table ([k8sexec.ExitCodes]) *)
Definition ExitCodes_entries : list (Z * string) :=
  [(-1, "Internal app error");
   (0, "Success");
   (1, "General error, unspecified error");
   (2, "Misuse of shell builtins");
   (126, "Command cannot execute");
   (127, "Command not found");
   (128, "Invalid argument to exit");
   (130, "Script terminated by Control-C (SIGINT)");
   (255, "Exit status out of range");
   (129, "Fatal error signal 1 (SIGHUP)");
   (131, "Fatal error signal 3 (SIGQUIT)");
   (132, "Fatal error signal 4 (SIGILL)");
   (133, "Fatal error signal 5 (SIGTRAP)");
   (134, "Fatal error signal 6 (SIGABRT/SIGIOT)");
   (135, "Fatal error signal 7 (SIGBUS)");
   (136, "Fatal error signal 8 (SIGFPE)");
   (137, "Fatal error signal 9 (SIGKILL)");
   (138, "Fatal error signal 10 (SIGUSR1)");
   (139, "Fatal error signal 11 (SIGSEGV)");
   (140, "Fatal error signal 12 (SIGUSR2)");
   (141, "Fatal error signal 13 (SIGPIPE)");
   (142, "Fatal error signal 14 (SIGALRM)");
   (143, "Fatal error signal 15 (SIGTERM)")].

Definition ExitCodes : gmap Z string := list_to_map ExitCodes_entries.

(** [GetExitCode]: classify an error returned by a remote execution. *)
Definition GetExitCode (err : GoError) : Z * string :=
  match errors_As_CodeExitError err with
  | None => (-1, "")
  | Some e =>
      let code := exit_code_of e in
      match ExitCodes !! code with
      | None => (code, "Exit code " +:+ pretty code +:+ " description not found!")
      | Some d => (code, d)
      end
  end.

(** [GetExitCodeDescription] *)
Definition GetExitCodeDescription (code : Z) : string :=
  match ExitCodes !! code with
  | None => ""
  | Some d => d
  end.

(** ** strings.Split / strings.Join with a one-byte separator *)
Fixpoint Split (s : string) (sep : ascii) : list string :=
  match s with
  | EmptyString => [""]
  | String c s' =>
      let rest := Split s' sep in
      if Ascii.eqb c sep then "" :: rest
      else match rest with
           | r :: rs => String c r :: rs
           | [] => [String c ""]
           end
  end.

Fixpoint Join (xs : list string) (sep : ascii) : string :=
  match xs with
  | [] => ""
  | [x] => x
  | x :: xs' => x +:+ String sep (Join xs' sep)
  end.

Definition newline : ascii := Ascii.ascii_of_nat 10.

(** ** Result records *)
Record ExecutionStatus := {
  st_Pod : string;
  st_Container : string;
  st_RetCode : Z;
  st_Error : list string;
  st_Stdout : list string;
  st_Stderr : list string
}.

Record EnumerationStatus := {
  es_Stdin : string;
  es_Args : list string;
  es_Namespace : string;
  es_Statuses : list ExecutionStatus
}.

(** [NewEnumerationStatus] (cmd/cmd.go); Go's [len] and slicing count
    bytes, as [String.length] and [substring] do. *)
Definition NewEnumerationStatus (pipeCommand : string) (command : list string)
    (namespace : string) : EnumerationStatus :=
  let pipeCommand :=
    if bool_decide (40 < String.length pipeCommand)%nat
    then String.substring 0 40 pipeCommand +:+ "... too long"
    else pipeCommand in
  {| es_Stdin := pipeCommand; es_Args := command; es_Namespace := namespace;
     es_Statuses := [] |}.

(** [NewExecutionStatus] *)
Definition NewExecutionStatus (pod container : string) (retCode : Z)
    (error stdout stderr : string) : ExecutionStatus :=
  {| st_Pod := pod; st_Container := container; st_RetCode := retCode;
     st_Error := Split error newline; st_Stdout := Split stdout newline;
     st_Stderr := Split stderr newline |}.

(** ** The cluster, as seen through the client library *)
Record Container := { c_Name : string }.

Record Pod := {
  pod_Name : string;
  pod_Labels : list (string * string);
  pod_Phase : string;              (** [Status.Phase] *)
  pod_Containers : list Container  (** [Spec.Containers], declared order *)
}.

(** A deployment or a stateful set: only [Spec.Selector.MatchLabels] is
    read by the program. *)
Record Workload := {
  w_Name : string;
  w_MatchLabels : list (string * string)
}.

(** [metaV1.ListOptions]; the label selector is kept as the label map that
    [mapToLabelSelector] renders as ["k1=v1,k2=v2"] (in Go's map order,
    which the API server does not depend on).  [ListOptions{}] is the empty
    selector. *)
Record ListOptions := { LabelSelector : list (string * string) }.

Definition NoListOptions : ListOptions := {| LabelSelector := [] |}.

(** [corev1.PodExecOptions] together with the request target. *)
Record ExecRequest := {
  rq_Namespace : string;
  rq_Pod : string;
  rq_Container : string;
  rq_Command : list string;
  rq_Stdin : bool;
  rq_Stdout : bool;
  rq_Stderr : bool;
  rq_TTY : bool
}.

(** What [StreamWithContext] leaves behind: the bytes written to the two
    sinks, and the error it returned, if any. *)
Record StreamResult := {
  sr_Stdout : string;
  sr_Stderr : string;
  sr_Err : option GoError
}.

Inductive res (A : Type) := Ok (a : A) | Err (e : GoError).
Arguments Ok {A} a.
Arguments Err {A} e.

(** The cluster API client (external collaborator). *)
Record Client := {
  (** [clientcmd.BuildConfigFromFlags] + [kubernetes.NewForConfig]:
      [Some msg] when the kubeconfig cannot be loaded. *)
  cl_ConfigError : option string;
  cl_ListDeployments : string -> res (list Workload);
  cl_ListStatefulSets : string -> res (list Workload);
  cl_ListPods : string -> ListOptions -> res (list Pod);
  cl_GetPod : string -> string -> res Pod;
  (** [remotecommand.NewSPDYExecutor]: [Some err] when it fails. *)
  cl_NewSPDYExecutor : ExecRequest -> option GoError;
  (** [executor.StreamWithContext], fed with the given stdin (or none). *)
  cl_Stream : ExecRequest -> option string -> StreamResult
}.

(** [type K8SExec struct]; [Config] and [Clientset] are the client. *)
Record K8SExec := { k_Client : Client; k_Namespace : string }.

Definition GetPods (k8s : K8SExec) (options : ListOptions) : res (list Pod) :=
  cl_ListPods (k_Client k8s) (k_Namespace k8s) options.

Definition GetDeployments (k8s : K8SExec) : res (list Workload) :=
  cl_ListDeployments (k_Client k8s) (k_Namespace k8s).

Definition GetStatefulSets (k8s : K8SExec) : res (list Workload) :=
  cl_ListStatefulSets (k_Client k8s) (k_Namespace k8s).

(** ** GetUniquePods *)

(** [for _, pod := range pods { m[pod.Name]++ }] *)
Definition count_pods (m : gmap string nat) (pods : list Pod) : gmap string nat :=
  fold_left (fun (m : gmap string nat) pod =>
    <[pod_Name pod := (default 0 (m !! pod_Name pod) + 1)%nat]> m) pods m.

(** One iteration of the deployment (or stateful-set) loop. *)
Definition controller_step (k8s : K8SExec)
    (acc : list Pod * gmap string nat) (w : Workload) : list Pod * gmap string nat :=
  let '(uniquePods, m) := acc in
  match GetPods k8s {| LabelSelector := w_MatchLabels w |} with
  | Err _ => (uniquePods, m)   (** [continue] *)
  | Ok pods =>
      let uniquePods :=
        match pods with
        | p :: _ => uniquePods ++ [p]
        | [] => uniquePods
        end in
      (uniquePods, count_pods m pods)
  end.

Definition controller_loop (k8s : K8SExec) (ws : list Workload)
    (uniquePods : list Pod) : list Pod * gmap string nat :=
  fold_left (controller_step k8s) ws (uniquePods, ∅).

(** The final loop over all pods of the namespace. *)
Fixpoint standalone_loop (deploymentPods statefulSetsPods : gmap string nat)
    (pods : list Pod) (uniquePods : list Pod) : list Pod :=
  match pods with
  | [] => uniquePods
  | pod :: rest =>
      match deploymentPods !! pod_Name pod, statefulSetsPods !! pod_Name pod with
      | Some _, _ => standalone_loop deploymentPods statefulSetsPods rest uniquePods
      | None, Some _ => standalone_loop deploymentPods statefulSetsPods rest uniquePods
      | None, None =>
          standalone_loop deploymentPods statefulSetsPods rest (uniquePods ++ [pod])
      end
  end.

Definition GetUniquePods (k8s : K8SExec) : res (Z * list Pod) :=
  match GetDeployments k8s with
  | Err e => Err e
  | Ok deployments =>
      let '(uniquePods, deploymentPods) := controller_loop k8s deployments [] in
      match GetStatefulSets k8s with
      | Err e => Err e
      | Ok statefulSets =>
          let '(uniquePods, statefulSetsPods) :=
            controller_loop k8s statefulSets uniquePods in
          match GetPods k8s NoListOptions with
          | Err e => Err e
          | Ok podsList =>
              Ok (Z.of_nat (length podsList),
                  standalone_loop deploymentPods statefulSetsPods podsList uniquePods)
          end
      end
  end.

(** ** The executor *)

(** What [exec] returns (code and error) and what it leaves in the two
    [bytes.Buffer] sinks. *)
Record ExecOutcome := {
  ex_RetCode : Z;
  ex_Err : option GoError;
  ex_Stdout : string;
  ex_Stderr : string
}.

(** The request built by [exec] ([PodExecOptions] on the pod's [exec]
    subresource). *)
Definition exec_request (k8s : K8SExec) (podName containerName : string)
    (cmd : list string) (stdin : option string) (tty : bool) : ExecRequest :=
  {| rq_Namespace := k_Namespace k8s; rq_Pod := podName;
     rq_Container := containerName; rq_Command := cmd;
     rq_Stdin := bool_decide (is_Some stdin); rq_Stdout := true;
     rq_Stderr := true; rq_TTY := tty |}.

(** [(k8s *K8SExec) exec]; the stdout and stderr sinks are always non-nil
    buffers at every call site, [stdin] is [None] for a nil reader. *)
Definition exec (k8s : K8SExec) (podName containerName : string)
    (cmd : list string) (stdin : option string) (tty : bool) : ExecOutcome :=
  let req := exec_request k8s podName containerName cmd stdin tty in
  match cl_NewSPDYExecutor (k_Client k8s) req with
  | Some err => {| ex_RetCode := -1; ex_Err := Some err; ex_Stdout := ""; ex_Stderr := "" |}
  | None =>
      let r := cl_Stream (k_Client k8s) req stdin in
      match sr_Err r with
      | None => {| ex_RetCode := 0; ex_Err := None;
                   ex_Stdout := sr_Stdout r; ex_Stderr := sr_Stderr r |}
      | Some err =>
          match errors_As_CodeExitError err with
          | Some exitError =>
              {| ex_RetCode := exit_code_of exitError; ex_Err := Some exitError;
                 ex_Stdout := sr_Stdout r; ex_Stderr := sr_Stderr r |}
          | None =>
              {| ex_RetCode := -1; ex_Err := Some err;
                 ex_Stdout := sr_Stdout r; ex_Stderr := sr_Stderr r |}
          end
      end
  end.

(** [(k8s *K8SExec) Exec] *)
Definition Exec (k8s : K8SExec) (podName containerName : string)
    (args : list string) (stdin : option string) : ExecutionStatus :=
  let o := exec k8s podName containerName args stdin false in
  let errMessage := match ex_Err o with Some err => Error err | None => "" end in
  NewExecutionStatus podName containerName (ex_RetCode o) errMessage
    (ex_Stdout o) (ex_Stderr o).

(** [(k8s *K8SExec) CheckUtilInContainer] *)
Definition CheckUtilInContainer (k8s : K8SExec) (podName containerName util : string) : bool :=
  let retCode := ex_RetCode (exec k8s podName containerName [util] None false) in
  negb (retCode =? 127) && negb (retCode =? 126).

(** ** The orchestrator [run] (cmd/cmd.go)

    [run] is written in a small monad that records every request sent to
    the cluster API server and stops at a fatal error: a [return err] from
    [run] (which makes [main] exit with status 1) or an [os.Exit(1)]. *)
Inductive ApiCall :=
| CallGetPod (namespace name : string)
| CallListPods (namespace : string) (options : ListOptions)
| CallExec (namespace pod container : string) (cmd : list string).

Inductive Outcome (A : Type) := Fatal (msg : string) | Done (a : A).
Arguments Fatal {A} msg.
Arguments Done {A} a.

Definition M (A : Type) : Type := list ApiCall -> Outcome A * list ApiCall.

Global Instance M_ret : MRet M := fun A a tr => (Done a, tr).
Global Instance M_bind : MBind M := fun A B k m tr =>
  match m tr with
  | (Done a, tr') => k a tr'
  | (Fatal msg, tr') => (Fatal msg, tr')
  end.

Definition fatal {A} (msg : string) : M A := fun tr => (Fatal msg, tr).

(** One request to the API server, answered by the client. *)
Definition api_call {A} (c : ApiCall) (r : A) : M A := fun tr => (Done r, tr ++ [c]).

(** A request whose error is fatal ([fmt.Println(err.Error()); os.Exit(1)]). *)
Definition api_call_or_exit {A} (c : ApiCall) (r : res A) : M A :=
  fun tr =>
    match r with
    | Ok a => (Done a, tr ++ [c])
    | Err e => (Fatal (Error e), tr ++ [c])
    end.

Record Flags := {
  kubeconfig : string;
  namespace : string;
  pod : string;
  container : string;
  format : string
}.

(** Standard input: an interactive terminal (or a failing [Stat]) is not
    read; a pipe is read to the end, which may fail. *)
Inductive StdinSource :=
| StdinTerminal
| StdinPipe (data : string)
| StdinReadError (msg : string).

(** [k8sInit] and [NewK8SExec] both load the kubeconfig; neither talks to
    the API server. *)
Definition k8sInit (cl : Client) : M unit :=
  match cl_ConfigError cl with
  | Some msg => fatal msg
  | None => mret ()
  end.

Definition NewK8SExec (cl : Client) (ns : string) : M K8SExec :=
  match cl_ConfigError cl with
  | Some msg => fatal msg
  | None => mret {| k_Client := cl; k_Namespace := ns |}
  end.

Definition capture_stdin (stdin : StdinSource) : M string :=
  match stdin with
  | StdinTerminal => mret ""
  | StdinPipe data => mret data
  | StdinReadError msg => fatal ("Failed to read stdin: " +:+ msg +:+ "
")
  end.

(** [if stdinBuf.Len() > 0 && len(args) == 0 { args = []string{"sh"} }] *)
Definition default_args (stdinBuf : string) (args : list string) : list string :=
  if bool_decide (0 < String.length stdinBuf)%nat && bool_decide (args = [])
  then ["sh"] else args.

Definition Exec_call (k8s : K8SExec) (podName containerName : string)
    (args : list string) (stdin : option string) : M ExecutionStatus :=
  api_call (CallExec (k_Namespace k8s) podName containerName args)
    (Exec k8s podName containerName args stdin).

(** [for _, _container := range _pod.Spec.Containers { ... }], each
    execution reading a fresh copy of the captured stdin. *)
Fixpoint exec_containers (k8s : K8SExec) (podName : string)
    (containers : list Container) (args : list string) (stdinBuf : string)
    : M (list ExecutionStatus) :=
  match containers with
  | [] => mret []
  | c :: cs =>
      status ← Exec_call k8s podName (c_Name c) args (Some stdinBuf);
      rest ← exec_containers k8s podName cs args stdinBuf;
      mret (status :: rest)
  end.

Definition is_running (p : Pod) : bool := String.eqb (pod_Phase p) "Running".

(** [for _, _pod := range pods { if _pod.Status.Phase == "Running" {...} }] *)
Fixpoint exec_pods (k8s : K8SExec) (pods : list Pod) (args : list string)
    (stdinBuf : string) : M (list ExecutionStatus) :=
  match pods with
  | [] => mret []
  | p :: ps =>
      here ← (if is_running p
              then exec_containers k8s (pod_Name p) (pod_Containers p) args stdinBuf
              else mret []);
      rest ← exec_pods k8s ps args stdinBuf;
      mret (here ++ rest)
  end.

(** [run], up to the rendering of the result (a pure function of the
    returned [EnumerationStatus] and the format). *)
Definition run (cl : Client) (fl : Flags) (stdin : StdinSource)
    (args : list string) : M EnumerationStatus :=
  k8sInit cl;;
  k8s ← NewK8SExec cl (namespace fl);
  stdinBuf ← capture_stdin stdin;
  if bool_decide (String.length stdinBuf = 0%nat) && bool_decide (args = [])
  then fatal "No commands provided either by stdin or arguments."
  else
    let args := default_args stdinBuf args in
    let enumStatus := NewEnumerationStatus stdinBuf args (namespace fl) in
    statuses ←
      (if negb (String.eqb (pod fl) "") && String.eqb (container fl) "" then
         _pod ← api_call_or_exit (CallGetPod (namespace fl) (pod fl))
                  (cl_GetPod cl (namespace fl) (pod fl));
         if is_running _pod
         then exec_containers k8s (pod_Name _pod) (pod_Containers _pod) args stdinBuf
         else mret []
       else if negb (String.eqb (pod fl) "") && negb (String.eqb (container fl) "") then
         _pod ← api_call_or_exit (CallGetPod (namespace fl) (pod fl))
                  (cl_GetPod cl (namespace fl) (pod fl));
         if negb (is_running _pod)
         then fatal ("Pod " +:+ pod fl +:+ " is not in Running phase
")
         else
           status ← Exec_call k8s (pod fl) (container fl) args (Some stdinBuf);
           mret [status]
       else if String.eqb (pod fl) "" && String.eqb (container fl) "" then
         pods ← api_call_or_exit (CallListPods (k_Namespace k8s) NoListOptions)
                  (GetPods k8s NoListOptions);
         exec_pods k8s pods args stdinBuf
       else mret []);
    mret {| es_Stdin := es_Stdin enumStatus; es_Args := es_Args enumStatus;
            es_Namespace := es_Namespace enumStatus; es_Statuses := statuses |}.

(** The bytes [run] ends up with in [stdinBuf] ([None]: reading failed). *)
Definition captured (stdin : StdinSource) : option string :=
  match stdin with
  | StdinTerminal => Some ""
  | StdinPipe data => Some data
  | StdinReadError _ => None
  end.

(** ** A small in-memory cluster

    An API server that answers label-selector listings by filtering its
    pods (every label of the selector present on the pod), finds pods by
    name, and runs every command successfully with output ["ok"]. *)
Module Fixture.

Definition label_match (sel : list (string * string)) (p : Pod) : bool :=
  forallb (fun kv => existsb (fun kv' => String.eqb kv.1 kv'.1 && String.eqb kv.2 kv'.2)
                       (pod_Labels p)) sel.

Definition find_pod (pods : list Pod) (name : string) : res Pod :=
  match List.find (fun p => String.eqb (pod_Name p) name) pods with
  | Some p => Ok p
  | None => Err (PlainError ("pods " +:+ name +:+ " not found"))
  end.

Definition cluster (pods : list Pod) (deployments statefulSets : list Workload) : Client :=
  {| cl_ConfigError := None;
     cl_ListDeployments := fun _ => Ok deployments;
     cl_ListStatefulSets := fun _ => Ok statefulSets;
     cl_ListPods := fun _ opts => Ok (List.filter (label_match (LabelSelector opts)) pods);
     cl_GetPod := fun _ name => find_pod pods name;
     cl_NewSPDYExecutor := fun _ => None;
     cl_Stream := fun _ _ => {| sr_Stdout := "ok"; sr_Stderr := ""; sr_Err := None |} |}.

Definition web1 : Pod :=
  {| pod_Name := "web-1"; pod_Labels := [("app", "web")]; pod_Phase := "Running";
     pod_Containers := [{| c_Name := "app" |}] |}.
Definition web2 : Pod :=
  {| pod_Name := "web-2"; pod_Labels := [("app", "web")]; pod_Phase := "Running";
     pod_Containers := [{| c_Name := "app" |}] |}.
Definition web_deployment : Workload :=
  {| w_Name := "web"; w_MatchLabels := [("app", "web")] |}.
Definition web_canary : Workload :=
  {| w_Name := "web-canary"; w_MatchLabels := [("app", "web")] |}.

Definition flags (pod container : string) : Flags :=
  {| kubeconfig := "/home/dev/.kube/config"; namespace := "default"; pod := pod;
     container := container; format := "text" |}.

(** A connection that drops while the command is running: some output
    has already arrived when the stream fails. *)
Definition dropping_cluster : Client :=
  {| cl_ConfigError := None;
     cl_ListDeployments := fun _ => Ok [];
     cl_ListStatefulSets := fun _ => Ok [];
     cl_ListPods := fun _ _ => Ok [web1];
     cl_GetPod := fun _ name => find_pod [web1] name;
     cl_NewSPDYExecutor := fun _ => None;
     cl_Stream := fun _ _ => {| sr_Stdout := "partial output"; sr_Stderr := "";
                                sr_Err := Some (PlainError "connection reset by peer") |} |}.

End Fixture.

(** ** Descriptions of the resolver's result *)

(** The representative of each controller: the first pod its label
    selector lists, when the listing succeeds and is non-empty. *)
Definition representatives (k8s : K8SExec) (ws : list Workload) : list Pod :=
  flat_map (fun w =>
    match GetPods k8s {| LabelSelector := w_MatchLabels w |} with
    | Ok (p :: _) => [p]
    | _ => []
    end) ws.

(** The names of all pods listed by the controllers' label selectors. *)
Definition listed_names (k8s : K8SExec) (ws : list Workload) : list string :=
  flat_map (fun w =>
    match GetPods k8s {| LabelSelector := w_MatchLabels w |} with
    | Ok pods => map pod_Name pods
    | Err _ => []
    end) ws.

(** The pods of the namespace that no listed controller selects. *)
Definition standalone_pods (k8s : K8SExec) (deployments statefulSets : list Workload)
    (podsList : list Pod) : list Pod :=
  filter (fun p => (pod_Name p ∉ listed_names k8s deployments) /\
                   (pod_Name p ∉ listed_names k8s statefulSets)) podsList.

(** The statuses [run] collects over a list of pods: every container of
    every Running pod, in order. *)
Definition running_pod_statuses (k8s : K8SExec) (pods : list Pod)
    (args : list string) (stdinBuf : string) : list ExecutionStatus :=
  flat_map (fun p =>
    if is_running p
    then map (fun c => Exec k8s (pod_Name p) (c_Name c) args (Some stdinBuf)) (pod_Containers p)
    else []) pods.

(** ** Rendering and selectors *)

(** [mapToLabelSelector]; the label map is given in the order Go's [range]
    happens to visit it (any order). *)
Definition comma : ascii := ","%char.

Definition mapToLabelSelector (labels : list (string * string)) : string :=
  Join (map (fun kv => kv.1 +:+ "=" +:+ kv.2) labels) comma.

(** [strings.Trim(s, "\n")]: [TrimLeft] then [TrimRight] of the cutset. *)
Fixpoint TrimLeft_newline (s : string) : string :=
  match s with
  | EmptyString => EmptyString
  | String c s' => if Ascii.eqb c newline then TrimLeft_newline s' else s
  end.

Fixpoint TrimRight_newline (s : string) : string :=
  match s with
  | EmptyString => EmptyString
  | String c s' =>
      let r := TrimRight_newline s' in
      if Ascii.eqb c newline && String.eqb r "" then "" else String c r
  end.

Definition Trim_newline (s : string) : string := TrimRight_newline (TrimLeft_newline s).

Definition nl : string := String newline "".

(** The body of the [for _, status := range enumStatus.Statuses] loop of the
    text format of [run]: what it prints for one execution status ([%d] of
    a Go [int] is [pretty]). *)
Definition render_status (status : ExecutionStatus) : string :=
  "CONTAINER: " +:+ st_Pod status +:+ "/" +:+ st_Container status +:+ nl +:+
  "Returned exit code: " +:+ pretty (st_RetCode status) +:+ " [" +:+
    GetExitCodeDescription (st_RetCode status) +:+ "]" +:+ nl +:+
  (if negb (String.eqb (Trim_newline (Join (st_Error status) newline)) "")
   then "Returned error: " +:+ Join (st_Error status) newline +:+ nl
   else "") +:+
  "Standard output:" +:+ nl +:+ Join (st_Stdout status) newline +:+
  "Standard error:" +:+ nl +:+ Join (st_Stderr status) newline +:+
  nl.

(** * Properties *)

(** ** The exit-code table *)

Lemma errors_As_CodeExitError_shape e e' :
  errors_As_CodeExitError e = Some e' -> exists msg code, e' = CodeExitError msg code.
Proof.
  induction e as [msg code| msg | msg inner IH]; simpl; intros H.
  - injection H as <-. eauto.
  - discriminate.
  - auto.
Qed.

Definition table_codes : list Z := seqZ (-1) 4 ++ seqZ 126 18 ++ [255].

Lemma elem_of_table_codes code :
  code ∈ table_codes <-> code = -1 \/ (0 <= code <= 2) \/ (126 <= code <= 143) \/ code = 255.
Proof.
  unfold table_codes. rewrite !elem_of_app, !elem_of_seqZ, list_elem_of_singleton. lia.
Qed.

Lemma table_codes_keys code : code ∈ table_codes <-> code ∈ ExitCodes_entries.*1.
Proof.
  assert (H1 : Forall (fun c => c ∈ ExitCodes_entries.*1) table_codes)
    by (refine (bool_decide_unpack _ _); vm_compute; reflexivity).
  assert (H2 : Forall (fun c => c ∈ table_codes) ExitCodes_entries.*1)
    by (refine (bool_decide_unpack _ _); vm_compute; reflexivity).
  rewrite Forall_forall in H1, H2. split; auto.
Qed.

Lemma ExitCodes_None code :
  ExitCodes !! code = None <->
  ~ (code = -1 \/ (0 <= code <= 2) \/ (126 <= code <= 143) \/ code = 255).
Proof.
  unfold ExitCodes. rewrite <- not_elem_of_list_to_map, <- table_codes_keys.
  rewrite elem_of_table_codes. tauto.
Qed.

Lemma ExitCodes_descriptions_nonempty code d :
  ExitCodes !! code = Some d -> d <> "".
Proof.
  unfold ExitCodes. intros H.
  apply elem_of_list_to_map in H; [| refine (bool_decide_unpack _ _); vm_compute; reflexivity].
  assert (Hall : Forall (fun e : Z * string => e.2 <> "") ExitCodes_entries)
    by (repeat constructor; discriminate).
  rewrite Forall_forall in Hall. exact (Hall (code, d) H).
Qed.

Lemma GetExitCodeDescription_empty code :
  GetExitCodeDescription code = "" <-> ExitCodes !! code = None.
Proof.
  unfold GetExitCodeDescription.
  destruct (ExitCodes !! code) as [d|] eqn:E; [|tauto].
  split; [intros ->; exfalso; exact (ExitCodes_descriptions_nonempty _ _ E eq_refl)
         | discriminate].
Qed.

Lemma signal_rows :
  forallb (fun code => bool_decide (code = 130) ||
             String.prefix ("Fatal error signal " +:+ pretty (code - 128) +:+ " (")
               (GetExitCodeDescription code))
    (seqZ 129 15) = true.
Proof. vm_compute. reflexivity. Qed.

(** C3 (as amended): [GetExitCodeDescription] gives 137 and 143 their
    signal descriptions, every other code of 129..143 the description
    "Fatal error signal <code-128> (...)", the rows -1, 0, 1, 2, 126, 127,
    128 and 255 their fixed texts, but 130 the text
    "Script terminated by Control-C (SIGINT)"; every code outside the
    table, such as 9999, yields the empty string. *)
Theorem C3_exit_code_descriptions :
  GetExitCodeDescription 137 = "Fatal error signal 9 (SIGKILL)" /\
  GetExitCodeDescription 143 = "Fatal error signal 15 (SIGTERM)" /\
  GetExitCodeDescription 130 = "Script terminated by Control-C (SIGINT)" /\
  GetExitCodeDescription 9999 = "" /\
  map GetExitCodeDescription [-1; 0; 1; 2; 126; 127; 128; 255] =
    ["Internal app error"; "Success"; "General error, unspecified error";
     "Misuse of shell builtins"; "Command cannot execute"; "Command not found";
     "Invalid argument to exit"; "Exit status out of range"] /\
  (forall code, 129 <= code <= 143 -> code <> 130 ->
     String.prefix ("Fatal error signal " +:+ pretty (code - 128) +:+ " (")
       (GetExitCodeDescription code) = true) /\
  (forall code, GetExitCodeDescription code = "" <->
     ~ (code = -1 \/ (0 <= code <= 2) \/ (126 <= code <= 143) \/ code = 255)).
Proof.
  split; [reflexivity|]. split; [reflexivity|]. split; [reflexivity|].
  split; [reflexivity|]. split; [reflexivity|]. split.
  - intros code Hr Hne.
    pose proof signal_rows as Hrows. rewrite forallb_forall in Hrows.
    specialize (Hrows code). rewrite <- list_elem_of_In, elem_of_seqZ in Hrows.
    specialize (Hrows ltac:(lia)).
    rewrite bool_decide_eq_false_2 in Hrows by exact Hne. exact Hrows.
  - intros code. rewrite GetExitCodeDescription_empty. apply ExitCodes_None.
Qed.

(** C3: the claim's [Describe(130)] = "Fatal error signal 2 (SIGINT)" fails
    on the table of [k8sexec]. *)
Lemma C3_counterexample :
  GetExitCodeDescription 130 <> "Fatal error signal 2 (SIGINT)".
Proof. vm_compute. discriminate. Qed.

(** C4 (as amended): [GetExitCode] returns (-1, "") exactly for the errors
    with no [CodeExitError] in their chain; for a [CodeExitError] whose code
    is absent from the table it returns that code and the text
    "Exit code <code> description not found!", and for one whose code is in
    the table the code and its description. *)
Theorem C4_GetExitCode_classification :
  (forall err, GetExitCode err = (-1, "") <-> errors_As_CodeExitError err = None) /\
  (forall err msg code,
     errors_As_CodeExitError err = Some (CodeExitError msg code) ->
     ExitCodes !! code = None ->
     GetExitCode err = (code, "Exit code " +:+ pretty code +:+ " description not found!")) /\
  (forall err msg code d,
     errors_As_CodeExitError err = Some (CodeExitError msg code) ->
     ExitCodes !! code = Some d ->
     GetExitCode err = (code, d)).
Proof.
  unfold GetExitCode. split; [|split].
  - intros err. destruct (errors_As_CodeExitError err) as [e|] eqn:E; [|tauto].
    split; [intros H; exfalso|discriminate].
    destruct (errors_As_CodeExitError_shape _ _ E) as (msg & code & ->).
    cbv beta iota zeta delta [exit_code_of] in H. destruct (ExitCodes !! code) as [d|] eqn:L.
    + injection H as -> ->. exact (ExitCodes_descriptions_nonempty _ _ L eq_refl).
    + injection H as _ H. discriminate H.
  - intros err msg code E L. rewrite E. cbv beta iota zeta delta [exit_code_of].
    rewrite L. reflexivity.
  - intros err msg code d E L. rewrite E. cbv beta iota zeta delta [exit_code_of].
    rewrite L. reflexivity.
Qed.

(** C4: a process that exits with code 77, absent from the table, is not
    classified as (-1, ""). *)
Lemma C4_counterexample :
  ExitCodes !! 77 = None /\
  GetExitCode (CodeExitError "command terminated with non-zero exit code" 77) =
    (77, "Exit code 77 description not found!").
Proof. split; vm_compute; reflexivity. Qed.

(** ** Strings *)

Lemma substring_first n s :
  (n <= String.length s)%nat ->
  String.length (String.substring 0 n s) = n /\ String.prefix (String.substring 0 n s) s = true.
Proof.
  revert n. induction s as [|c s IH]; intros [|n] Hn; simpl in *; try (split; reflexivity).
  - lia.
  - destruct (IH n ltac:(lia)) as [Hl Hp]. split; [lia|].
    destruct (ascii_dec c c); [exact Hp | contradiction].
Qed.

(** C5: [NewEnumerationStatus] keeps a stdin text of at most 40 bytes as it
    is, and replaces a longer one by its first 40 bytes followed by
    "... too long". *)
Theorem C5_stdin_summary (s : string) (args : list string) (ns : string) :
  ((String.length s <= 40)%nat -> es_Stdin (NewEnumerationStatus s args ns) = s) /\
  ((40 < String.length s)%nat ->
     exists first40, String.length first40 = 40%nat /\ String.prefix first40 s = true /\
       es_Stdin (NewEnumerationStatus s args ns) = first40 +:+ "... too long").
Proof.
  unfold NewEnumerationStatus; simpl. split; intros H.
  - rewrite bool_decide_eq_false_2 by lia. reflexivity.
  - rewrite bool_decide_eq_true_2 by lia.
    exists (String.substring 0 40 s).
    destruct (substring_first 40 s ltac:(lia)) as [Hl Hp]. auto.
Qed.

Lemma Split_not_nil s sep : Split s sep <> [].
Proof.
  destruct s as [|c s]; simpl; [discriminate|].
  destruct (Ascii.eqb c sep); [discriminate|].
  destruct (Split s sep); discriminate.
Qed.

Lemma Join_cons_char c r rs sep :
  Join (String c r :: rs) sep = String c (Join (r :: rs) sep).
Proof. destruct rs; reflexivity. Qed.

Lemma Join_Split s sep : Join (Split s sep) sep = s.
Proof.
  induction s as [|c s IH]; [reflexivity|]. simpl.
  destruct (Ascii.eqb c sep) eqn:E.
  - apply Ascii.eqb_eq in E as ->.
    destruct (Split s sep) as [|r rs] eqn:Es; [exfalso; exact (Split_not_nil s sep Es)|].
    change (Join ("" :: r :: rs) sep) with ("" +:+ String sep (Join (r :: rs) sep)).
    rewrite IH. reflexivity.
  - destruct (Split s sep) as [|r rs] eqn:Es; [exfalso; exact (Split_not_nil s sep Es)|].
    rewrite Join_cons_char, IH. reflexivity.
Qed.

Lemma Split_lines_sep_free s sep :
  Forall (fun l => sep ∉ String.list_ascii_of_string l) (Split s sep).
Proof.
  induction s as [|c s IH]; simpl.
  - repeat constructor. simpl. apply not_elem_of_nil.
  - destruct (Ascii.eqb c sep) eqn:E.
    + constructor; [apply not_elem_of_nil | exact IH].
    + destruct (Split s sep) as [|r rs]; [repeat constructor; simpl|].
      * rewrite elem_of_cons. intros [-> | Hn]; [rewrite Ascii.eqb_refl in E; discriminate
                                                | exact (not_elem_of_nil _ Hn)].
      * inversion IH as [|? ? Hr Hrs]; subst. constructor; [|exact Hrs]. simpl.
        rewrite elem_of_cons. intros [-> | Hn]; [rewrite Ascii.eqb_refl in E; discriminate
                                                | exact (Hr Hn)].
Qed.

(** C8: [NewExecutionStatus] stores each captured text as its
    newline-separated lines: no stored line contains a newline, joining them
    with newlines gives back the text, and the empty text is stored as the
    single empty line. *)
Theorem C8_output_lines pod container retCode error stdout stderr :
  let st := NewExecutionStatus pod container retCode error stdout stderr in
  Join (st_Stdout st) newline = stdout /\ Join (st_Stderr st) newline = stderr /\
  Join (st_Error st) newline = error /\
  Forall (fun l => newline ∉ String.list_ascii_of_string l) (st_Stdout st) /\
  Forall (fun l => newline ∉ String.list_ascii_of_string l) (st_Stderr st) /\
  Forall (fun l => newline ∉ String.list_ascii_of_string l) (st_Error st) /\
  (stdout = "" -> st_Stdout st = [""]) /\ (stderr = "" -> st_Stderr st = [""]) /\
  (error = "" -> st_Error st = [""]).
Proof.
  simpl. split; [apply Join_Split|]. split; [apply Join_Split|].
  split; [apply Join_Split|].
  split; [apply Split_lines_sep_free|]. split; [apply Split_lines_sep_free|].
  split; [apply Split_lines_sep_free|].
  split; [intros ->; reflexivity|]. split; intros ->; reflexivity.
Qed.

(** ** The executor *)

(** C7 (as amended): when the executor cannot be created, [Exec] records
    code -1, the error text and empty outputs; when the stream fails with an
    error that carries no [CodeExitError], it records -1 and the error text
    together with whatever output arrived before the failure; when the remote
    process ends with an exit code ([CodeExitError]) it records that code
    (not -1) with the error text and the output; otherwise 0, no error text
    and the output. *)
Theorem C7_exec_results k8s podName containerName args stdin :
  let req := exec_request k8s podName containerName args stdin false in
  let r := cl_Stream (k_Client k8s) req stdin in
  (forall e, cl_NewSPDYExecutor (k_Client k8s) req = Some e ->
     Exec k8s podName containerName args stdin =
       NewExecutionStatus podName containerName (-1) (Error e) "" "") /\
  (forall e, cl_NewSPDYExecutor (k_Client k8s) req = None -> sr_Err r = Some e ->
     errors_As_CodeExitError e = None ->
     Exec k8s podName containerName args stdin =
       NewExecutionStatus podName containerName (-1) (Error e) (sr_Stdout r) (sr_Stderr r)) /\
  (forall e msg code, cl_NewSPDYExecutor (k_Client k8s) req = None -> sr_Err r = Some e ->
     errors_As_CodeExitError e = Some (CodeExitError msg code) ->
     Exec k8s podName containerName args stdin =
       NewExecutionStatus podName containerName code msg (sr_Stdout r) (sr_Stderr r)) /\
  (cl_NewSPDYExecutor (k_Client k8s) req = None -> sr_Err r = None ->
     Exec k8s podName containerName args stdin =
       NewExecutionStatus podName containerName 0 "" (sr_Stdout r) (sr_Stderr r)).
Proof.
  simpl. unfold Exec, exec. split; [|split; [|split]].
  - intros e H. rewrite H. reflexivity.
  - intros e H1 H2 H3. rewrite H1, H2, H3. reflexivity.
  - intros e msg code H1 H2 H3. rewrite H1, H2, H3. reflexivity.
  - intros H1 H2. rewrite H1, H2. reflexivity.
Qed.

(** C7: a transport failure in the middle of the stream keeps the output
    received so far, so the output sinks are not empty. *)
Lemma C7_counterexample :
  let st := Exec {| k_Client := Fixture.dropping_cluster; k_Namespace := "default" |}
              "web-1" "app" ["ls"] (Some "") in
  st_RetCode st = -1 /\ st_Error st = ["connection reset by peer"] /\
  st_Stdout st = ["partial output"].
Proof. vm_compute. auto. Qed.

(** C10: [CheckUtilInContainer] runs the single-word command [util] without
    stdin and answers true exactly when the return code is neither 127 nor
    126; a failure to create the executor, or a stream failure that carries
    no exit code, gives -1 and so answers true. *)
Theorem C10_CheckUtilInContainer k8s podName containerName util :
  let req := exec_request k8s podName containerName [util] None false in
  (CheckUtilInContainer k8s podName containerName util = true <->
     ex_RetCode (exec k8s podName containerName [util] None false) <> 127 /\
     ex_RetCode (exec k8s podName containerName [util] None false) <> 126) /\
  rq_Command req = [util] /\ rq_Stdin req = false /\
  (forall e, cl_NewSPDYExecutor (k_Client k8s) req = Some e ->
     CheckUtilInContainer k8s podName containerName util = true) /\
  (forall e, cl_NewSPDYExecutor (k_Client k8s) req = None ->
     sr_Err (cl_Stream (k_Client k8s) req None) = Some e ->
     errors_As_CodeExitError e = None ->
     CheckUtilInContainer k8s podName containerName util = true).
Proof.
  simpl. split; [|split; [reflexivity|split; [reflexivity|split]]].
  - unfold CheckUtilInContainer.
    rewrite andb_true_iff, !negb_true_iff, !Z.eqb_neq. reflexivity.
  - intros e H. unfold CheckUtilInContainer, exec. simpl in H |- *. rewrite H. reflexivity.
  - intros e H1 H2 H3. unfold CheckUtilInContainer, exec. simpl in H1, H2 |- *.
    rewrite H1, H2, H3. reflexivity.
Qed.

(** ** The unique-target resolver *)

Lemma count_pods_is_Some m pods x :
  is_Some (count_pods m pods !! x) <-> is_Some (m !! x) \/ x ∈ map pod_Name pods.
Proof.
  revert m. induction pods as [|p pods IH]; intros m; simpl.
  - rewrite elem_of_nil. tauto.
  - unfold count_pods in IH |- *. simpl. rewrite IH, lookup_insert_is_Some', elem_of_cons.
    naive_solver.
Qed.

Lemma controller_loop_spec k8s ws uniquePods m :
  let r := fold_left (controller_step k8s) ws (uniquePods, m) in
  r.1 = uniquePods ++ representatives k8s ws /\
  (forall x, is_Some (r.2 !! x) <-> is_Some (m !! x) \/ x ∈ listed_names k8s ws).
Proof.
  revert uniquePods m. induction ws as [|w ws IH]; intros uniquePods m; simpl.
  - rewrite app_nil_r. split; [reflexivity|]. intros x. rewrite elem_of_nil. tauto.
  - unfold representatives, listed_names in *. simpl.
    destruct (GetPods k8s {| LabelSelector := w_MatchLabels w |}) as [pods|e].
    + destruct (IH (match pods with p :: _ => uniquePods ++ [p] | [] => uniquePods end)
                  (count_pods m pods)) as [H1 H2].
      split.
      * rewrite H1. destruct pods as [|p pods']; simpl; [reflexivity|].
        rewrite <- app_assoc. reflexivity.
      * intros x. rewrite H2, count_pods_is_Some, elem_of_app. tauto.
    + destruct (IH uniquePods m) as [H1 H2]. split; [exact H1|]. exact H2.
Qed.

Lemma standalone_loop_spec dm sm (Ld Ls : list string) pods uniquePods :
  (forall x, is_Some (dm !! x) <-> x ∈ Ld) ->
  (forall x, is_Some (sm !! x) <-> x ∈ Ls) ->
  standalone_loop dm sm pods uniquePods =
  uniquePods ++ filter (fun p => (pod_Name p ∉ Ld) /\ (pod_Name p ∉ Ls)) pods.
Proof.
  intros Hd Hs. revert uniquePods.
  induction pods as [|p pods IH]; intros uniquePods; simpl.
  - rewrite app_nil_r. reflexivity.
  - rewrite filter_cons.
    destruct (dm !! pod_Name p) as [a|] eqn:Ed.
    + rewrite decide_False; [apply IH|]. intros [H _]. apply H, Hd. rewrite Ed. eauto.
    + destruct (sm !! pod_Name p) as [b|] eqn:Es.
      * rewrite decide_False; [apply IH|]. intros [_ H]. apply H, Hs. rewrite Es. eauto.
      * rewrite decide_True.
        -- rewrite IH, <- app_assoc. reflexivity.
        -- split; intros H; [apply Hd in H | apply Hs in H];
             [rewrite Ed in H | rewrite Es in H]; exact (is_Some_None H).
Qed.

Lemma representatives_listed k8s ws q :
  q ∈ representatives k8s ws -> pod_Name q ∈ listed_names k8s ws.
Proof.
  unfold representatives, listed_names. rewrite !list_elem_of_bind.
  intros (w & Hq & Hw). exists w. split; [|exact Hw].
  destruct (GetPods k8s _) as [[|p pods]|e]; try (exfalso; exact (not_elem_of_nil _ Hq)).
  apply list_elem_of_singleton in Hq as ->. simpl. apply elem_of_cons. left. reflexivity.
Qed.

Lemma NoDup_names_filter (P : Pod -> Prop) `{!forall p, Decision (P p)} pods :
  NoDup (map pod_Name pods) -> NoDup (map pod_Name (filter P pods)).
Proof.
  induction pods as [|p pods IH]; simpl; intros Hnd; [constructor|].
  apply NoDup_cons in Hnd as [Hn Hnd]. rewrite filter_cons.
  destruct (decide (P p)); simpl; [|auto].
  constructor; [|auto].
  intros Hin. apply Hn. apply list_elem_of_fmap in Hin as (q & Hq & Hin).
  apply list_elem_of_filter in Hin as [_ Hin].
  apply list_elem_of_fmap. eauto.
Qed.

(** C1 (as amended): when the three listings succeed, [GetUniquePods]
    returns the representative (first listed pod) of each deployment, then
    of each stateful set, then every pod of the namespace that no
    controller's selector lists; the standalone pods are pairwise distinct
    (pod names being unique in the namespace) and share no name with any
    representative.  The representatives themselves are not deduplicated:
    a pod that is the first match of two overlapping selectors is returned
    once per controller. *)
Theorem C1_GetUniquePods k8s deployments statefulSets podsList :
  GetDeployments k8s = Ok deployments ->
  GetStatefulSets k8s = Ok statefulSets ->
  GetPods k8s NoListOptions = Ok podsList ->
  let standalone := standalone_pods k8s deployments statefulSets podsList in
  GetUniquePods k8s =
    Ok (Z.of_nat (length podsList),
        representatives k8s deployments ++ representatives k8s statefulSets ++ standalone) /\
  (NoDup (map pod_Name podsList) -> NoDup (map pod_Name standalone)) /\
  (forall q p, q ∈ representatives k8s deployments ++ representatives k8s statefulSets ->
     p ∈ standalone -> pod_Name q <> pod_Name p).
Proof.
  intros Hd Hs Hp standalone. split; [|split].
  - unfold GetUniquePods. rewrite Hd.
    destruct (controller_loop k8s deployments []) as [u1 dm] eqn:E1.
    rewrite Hs.
    destruct (controller_loop k8s statefulSets u1) as [u2 sm] eqn:E2.
    rewrite Hp.
    pose proof (controller_loop_spec k8s deployments [] ∅) as [Hu1 Hdm].
    unfold controller_loop in E1, E2. rewrite E1 in Hu1, Hdm. simpl in Hu1, Hdm.
    pose proof (controller_loop_spec k8s statefulSets u1 ∅) as [Hu2 Hsm].
    rewrite E2 in Hu2, Hsm. simpl in Hu2, Hsm.
    rewrite (standalone_loop_spec dm sm (listed_names k8s deployments)
               (listed_names k8s statefulSets)).
    + rewrite Hu2, Hu1, <- app_assoc. reflexivity.
    + intros x. rewrite Hdm, lookup_empty. split; [intros [H|H]; [destruct (is_Some_None H)|exact H]|auto].
    + intros x. rewrite Hsm, lookup_empty. split; [intros [H|H]; [destruct (is_Some_None H)|exact H]|auto].
  - apply NoDup_names_filter.
  - intros q p Hq Hst Heq. unfold standalone, standalone_pods in Hst.
    apply list_elem_of_filter in Hst as [[Hnd Hns] _].
    apply elem_of_app in Hq as [Hq|Hq]; apply representatives_listed in Hq;
      rewrite Heq in Hq; contradiction.
Qed.

(** C1: two deployments whose selectors overlap make [GetUniquePods] return
    the same pod twice. *)
Lemma C1_counterexample :
  GetUniquePods {| k_Client := Fixture.cluster [Fixture.web1; Fixture.web2]
                                 [Fixture.web_deployment; Fixture.web_canary] [];
                   k_Namespace := "default" |} =
    Ok (2, [Fixture.web1; Fixture.web1]).
Proof. vm_compute. reflexivity. Qed.

Lemma C1_witness :
  let k8s := {| k_Client := Fixture.cluster [Fixture.web1; Fixture.web2]
                              [Fixture.web_deployment; Fixture.web_canary] [];
                k_Namespace := "default" |} in
  GetDeployments k8s = Ok [Fixture.web_deployment; Fixture.web_canary] /\
  GetStatefulSets k8s = Ok [] /\
  GetPods k8s NoListOptions = Ok [Fixture.web1; Fixture.web2] /\
  (let standalone := standalone_pods k8s [Fixture.web_deployment; Fixture.web_canary] []
                       [Fixture.web1; Fixture.web2] in
   GetUniquePods k8s =
     Ok (Z.of_nat (length [Fixture.web1; Fixture.web2]),
         representatives k8s [Fixture.web_deployment; Fixture.web_canary] ++
         representatives k8s [] ++ standalone) /\
   (NoDup (map pod_Name [Fixture.web1; Fixture.web2]) -> NoDup (map pod_Name standalone)) /\
   (forall q p, q ∈ representatives k8s [Fixture.web_deployment; Fixture.web_canary] ++
                     representatives k8s [] ->
      p ∈ standalone -> pod_Name q <> pod_Name p)).
Proof.
  intros k8s. split; [reflexivity|]. split; [reflexivity|]. split; [reflexivity|].
  apply C1_GetUniquePods; reflexivity.
Defined.

(** ** The orchestrator *)

Lemma exec_containers_run k8s podName containers args stdinBuf tr :
  exec_containers k8s podName containers args stdinBuf tr =
  (Done (map (fun c => Exec k8s podName (c_Name c) args (Some stdinBuf)) containers),
   tr ++ map (fun c => CallExec (k_Namespace k8s) podName (c_Name c) args) containers).
Proof.
  revert tr. induction containers as [|c cs IH]; intros tr; simpl.
  - rewrite app_nil_r. reflexivity.
  - unfold mbind, M_bind, Exec_call, api_call at 1. rewrite IH.
    unfold mret, M_ret. rewrite <- app_assoc. reflexivity.
Qed.

Lemma exec_pods_run k8s pods args stdinBuf tr :
  exec_pods k8s pods args stdinBuf tr =
  (Done (running_pod_statuses k8s pods args stdinBuf),
   tr ++ flat_map (fun p =>
           if is_running p
           then map (fun c => CallExec (k_Namespace k8s) (pod_Name p) (c_Name c) args)
                  (pod_Containers p)
           else []) pods).
Proof.
  revert tr. induction pods as [|p ps IH]; intros tr; simpl.
  - rewrite app_nil_r. reflexivity.
  - unfold mbind, M_bind at 1. destruct (is_running p).
    + rewrite exec_containers_run. unfold mbind, M_bind. rewrite IH.
      unfold mret, M_ret. rewrite <- app_assoc. reflexivity.
    + unfold mret, M_ret at 1. unfold mbind, M_bind. rewrite IH.
      unfold mret, M_ret. reflexivity.
Qed.

Lemma capture_stdin_ok stdin buf tr :
  captured stdin = Some buf -> capture_stdin stdin tr = (Done buf, tr).
Proof. destruct stdin; simpl; intros H; unfold mret, M_ret; congruence. Qed.

Lemma command_present buf (args : list string) :
  buf <> "" \/ args <> [] ->
  bool_decide (String.length buf = 0%nat) && bool_decide (args = []) = false.
Proof.
  intros H. destruct buf as [|c b]; simpl.
  - rewrite bool_decide_eq_false_2; [reflexivity|]. destruct H; [congruence|exact H].
  - reflexivity.
Qed.

Lemma String_eqb_neq s t : s <> t -> String.eqb s t = false.
Proof. apply String.eqb_neq. Qed.

(** C2 (as amended): with neither a pod nor a container given (and a
    command or stdin present), [run] lists all pods of the namespace, not
    the unique-target set of [GetUniquePods], and executes the command
    against every container of every listed pod whose phase is "Running",
    in listing and declaration order; a failing listing is fatal. *)
Theorem C2_all_pods cl fl stdin args buf :
  cl_ConfigError cl = None -> captured stdin = Some buf -> (buf <> "" \/ args <> []) ->
  pod fl = "" -> container fl = "" ->
  let k8s := {| k_Client := cl; k_Namespace := namespace fl |} in
  (forall pods, cl_ListPods cl (namespace fl) NoListOptions = Ok pods ->
     exists es, fst (run cl fl stdin args []) = Done es /\
       es_Statuses es = running_pod_statuses k8s pods (default_args buf args) buf) /\
  (forall e, cl_ListPods cl (namespace fl) NoListOptions = Err e ->
     fst (run cl fl stdin args []) = Fatal (Error e)).
Proof.
  intros Hcfg Hcap Hcmd Hpod Hcont k8s.
  unfold run, k8sInit, NewK8SExec. rewrite Hcfg.
  unfold mret, M_ret, mbind, M_bind.
  rewrite (capture_stdin_ok _ _ _ Hcap), (command_present _ _ Hcmd).
  rewrite Hpod, Hcont. simpl.
  unfold api_call_or_exit, GetPods. simpl. split.
  - intros pods Hl. rewrite Hl. rewrite exec_pods_run. eexists; split; reflexivity.
  - intros e Hl. rewrite Hl. reflexivity.
Qed.

(** C2: in a namespace where one deployment owns two Running replicas,
    [GetUniquePods] keeps one of them, but [run] executes in both. *)
Lemma C2_counterexample :
  let cl := Fixture.cluster [Fixture.web1; Fixture.web2] [Fixture.web_deployment] [] in
  GetUniquePods {| k_Client := cl; k_Namespace := "default" |} = Ok (2, [Fixture.web1]) /\
  match fst (run cl (Fixture.flags "" "") StdinTerminal ["ls"] []) with
  | Done es => map st_Pod (es_Statuses es) = ["web-1"; "web-2"]
  | Fatal _ => False
  end.
Proof. vm_compute. split; reflexivity. Qed.

Lemma C2_witness :
  let cl := Fixture.cluster [Fixture.web1; Fixture.web2] [Fixture.web_deployment] [] in
  let fl := Fixture.flags "" "" in
  cl_ConfigError cl = None /\ captured StdinTerminal = Some "" /\
  ("" <> "" \/ ["ls"] <> []) /\ pod fl = "" /\ container fl = "" /\
  (forall pods, cl_ListPods cl (namespace fl) NoListOptions = Ok pods ->
     exists es, fst (run cl fl StdinTerminal ["ls"] []) = Done es /\
       es_Statuses es = running_pod_statuses {| k_Client := cl; k_Namespace := namespace fl |}
                          pods (default_args "" ["ls"]) "") /\
  (forall e, cl_ListPods cl (namespace fl) NoListOptions = Err e ->
     fst (run cl fl StdinTerminal ["ls"] []) = Fatal (Error e)).
Proof.
  intros cl fl.
  assert (Hcmd : "" <> "" \/ ["ls"] <> []) by (right; discriminate).
  split; [reflexivity|]. split; [reflexivity|]. split; [exact Hcmd|].
  split; [reflexivity|]. split; [reflexivity|].
  apply (C2_all_pods cl fl StdinTerminal ["ls"] ""); [reflexivity | reflexivity | exact Hcmd
                                                     | reflexivity | reflexivity].
Defined.

(** C6: with nothing on stdin and no command arguments, [run] stops with a
    fatal error before sending any request to the API server, so no
    execution status is produced. *)
Theorem C6_no_command cl fl stdin :
  captured stdin = Some "" -> exists msg, run cl fl stdin [] [] = (Fatal msg, []).
Proof.
  intros Hcap. unfold run, k8sInit, NewK8SExec.
  destruct (cl_ConfigError cl) as [msg|]; [eexists; reflexivity|].
  destruct stdin as [|data|m]; simpl in Hcap; [| injection Hcap as -> | discriminate].
  all: eexists; reflexivity.
Qed.

Lemma C6_witness :
  captured StdinTerminal = Some "" /\
  exists msg, run (Fixture.cluster [Fixture.web1] [] []) (Fixture.flags "" "")
                StdinTerminal [] [] = (Fatal msg, []).
Proof. split; [reflexivity|]. apply C6_no_command. reflexivity. Defined.

(** C9: with a pod name given, [run] fetches that pod.  Without a
    container, a pod that is not Running yields an empty list of statuses
    and no error, and a Running pod gets the command executed in each of its
    containers in declared order.  With a container, a pod that is not
    Running is a fatal error naming the pod. *)
Theorem C9_named_pod cl fl stdin args buf p :
  cl_ConfigError cl = None -> captured stdin = Some buf -> (buf <> "" \/ args <> []) ->
  pod fl <> "" -> cl_GetPod cl (namespace fl) (pod fl) = Ok p ->
  let k8s := {| k_Client := cl; k_Namespace := namespace fl |} in
  (container fl = "" -> is_running p = false ->
     exists es, fst (run cl fl stdin args []) = Done es /\ es_Statuses es = []) /\
  (container fl = "" -> is_running p = true ->
     exists es, fst (run cl fl stdin args []) = Done es /\
       es_Statuses es = map (fun c => Exec k8s (pod_Name p) (c_Name c)
                                        (default_args buf args) (Some buf)) (pod_Containers p)) /\
  (container fl <> "" -> is_running p = false ->
     fst (run cl fl stdin args []) = Fatal ("Pod " +:+ pod fl +:+ " is not in Running phase
")).
Proof.
  intros Hcfg Hcap Hcmd Hpod Hget k8s.
  unfold run, k8sInit, NewK8SExec. rewrite Hcfg.
  unfold mret, M_ret, mbind, M_bind.
  rewrite (capture_stdin_ok _ _ _ Hcap), (command_present _ _ Hcmd).
  rewrite (String_eqb_neq _ _ Hpod). simpl negb.
  unfold api_call_or_exit. rewrite Hget.
  split; [|split].
  - intros Hc Hr. rewrite Hc, Hr. simpl. eexists; split; reflexivity.
  - intros Hc Hr. rewrite Hc, Hr. simpl. rewrite exec_containers_run.
    eexists; split; reflexivity.
  - intros Hc Hr. rewrite (String_eqb_neq _ _ Hc), Hr. simpl. reflexivity.
Qed.

Lemma C9_witness :
  let cl := Fixture.cluster [Fixture.web1] [] [] in
  let fl := Fixture.flags "web-1" "" in
  cl_ConfigError cl = None /\ captured (StdinPipe "id") = Some "id" /\
  ("id" <> "" \/ @nil string <> []) /\ pod fl <> "" /\
  cl_GetPod cl (namespace fl) (pod fl) = Ok Fixture.web1 /\
  exists es, fst (run cl fl (StdinPipe "id") [] []) = Done es /\
    es_Statuses es = map (fun c => Exec {| k_Client := cl; k_Namespace := namespace fl |}
                                     "web-1" (c_Name c) ["sh"] (Some "id"))
                       (pod_Containers Fixture.web1).
Proof.
  intros cl fl.
  assert (Hcmd : "id" <> "" \/ @nil string <> []) by (left; discriminate).
  assert (Hpod : pod fl <> "") by discriminate.
  split; [reflexivity|]. split; [reflexivity|]. split; [exact Hcmd|].
  split; [exact Hpod|]. split; [reflexivity|].
  apply (C9_named_pod cl fl (StdinPipe "id") [] "id" Fixture.web1);
    [reflexivity | reflexivity | exact Hcmd | exact Hpod | reflexivity | reflexivity | reflexivity].
Defined.

(** * Further properties of the code *)

(** ** Label selectors *)

Lemma list_ascii_of_string_app a b :
  String.list_ascii_of_string (a +:+ b) =
  String.list_ascii_of_string a ++ String.list_ascii_of_string b.
Proof. induction a as [|c a IH]; simpl; [reflexivity|]. rewrite IH. reflexivity. Qed.

Lemma Split_sep_free s sep :
  sep ∉ String.list_ascii_of_string s -> Split s sep = [s].
Proof.
  induction s as [|c s IH]; simpl; intros H; [reflexivity|].
  apply not_elem_of_cons in H as [Hc Hs].
  destruct (Ascii.eqb c sep) eqn:E; [apply Ascii.eqb_eq in E; congruence|].
  rewrite IH by exact Hs. reflexivity.
Qed.

Lemma Split_app_sep x y sep :
  sep ∉ String.list_ascii_of_string x -> Split (x +:+ String sep y) sep = x :: Split y sep.
Proof.
  induction x as [|c x IH]; simpl; intros H.
  - rewrite Ascii.eqb_refl. reflexivity.
  - apply not_elem_of_cons in H as [Hc Hx].
    destruct (Ascii.eqb c sep) eqn:E; [apply Ascii.eqb_eq in E; congruence|].
    rewrite IH by exact Hx. reflexivity.
Qed.

Lemma Split_Join xs sep :
  xs <> [] -> Forall (fun x => sep ∉ String.list_ascii_of_string x) xs ->
  Split (Join xs sep) sep = xs.
Proof.
  induction xs as [|x xs IH]; intros Hne Hf; [congruence|].
  inversion Hf as [|? ? Hx Hxs]; subst.
  destruct xs as [|x' xs'].
  - simpl. apply Split_sep_free, Hx.
  - change (Join (x :: x' :: xs') sep) with (x +:+ String sep (Join (x' :: xs') sep)).
    rewrite Split_app_sep by exact Hx. rewrite IH; [reflexivity|discriminate|exact Hxs].
Qed.

(** X1: [mapToLabelSelector] renders the empty map as the empty selector;
    for a non-empty map whose keys and values contain no comma, splitting
    the selector at its commas gives back one "key=value" part per label, in
    the order the map was visited. *)
Theorem mapToLabelSelector_parts labels :
  labels <> [] ->
  Forall (fun kv => (comma ∉ String.list_ascii_of_string kv.1) /\
                    (comma ∉ String.list_ascii_of_string kv.2)) labels ->
  mapToLabelSelector [] = "" /\
  Split (mapToLabelSelector labels) comma = map (fun kv => kv.1 +:+ "=" +:+ kv.2) labels.
Proof.
  intros Hne Hf. split; [reflexivity|].
  apply Split_Join.
  - destruct labels; [congruence|discriminate].
  - apply Forall_map. eapply Forall_impl; [exact Hf|].
    intros [k v] [Hk Hv]. simpl in *.
    rewrite !list_ascii_of_string_app. simpl.
    rewrite !elem_of_app, elem_of_cons.
    intros [H|[H|H]]; [exact (Hk H) | discriminate | exact (Hv H)].
Qed.

Lemma mapToLabelSelector_parts_witness :
  [("app", "web"); ("tier", "frontend")] <> [] /\
  Forall (fun kv : string * string => (comma ∉ String.list_ascii_of_string kv.1) /\
                    (comma ∉ String.list_ascii_of_string kv.2))
    [("app", "web"); ("tier", "frontend")] /\
  mapToLabelSelector [] = "" /\
  Split (mapToLabelSelector [("app", "web"); ("tier", "frontend")]) comma =
    map (fun kv : string * string => kv.1 +:+ "=" +:+ kv.2) [("app", "web"); ("tier", "frontend")].
Proof.
  assert (Hne : [("app", "web"); ("tier", "frontend")] <> []) by discriminate.
  assert (Hf : Forall (fun kv : string * string => (comma ∉ String.list_ascii_of_string kv.1) /\
                          (comma ∉ String.list_ascii_of_string kv.2))
                 [("app", "web"); ("tier", "frontend")])
    by (refine (bool_decide_unpack _ _); vm_compute; reflexivity).
  split; [exact Hne|]. split; [exact Hf|].
  apply (mapToLabelSelector_parts _ Hne Hf).
Defined.

(** ** The controllers' pod counts *)

Lemma count_pods_lookup m pods x :
  count_pods m pods !! x =
  if decide (length (filter (fun y => y = x) (map pod_Name pods)) = 0%nat) then m !! x
  else Some (default 0%nat (m !! x) + length (filter (fun y => y = x) (map pod_Name pods)))%nat.
Proof.
  revert m. induction pods as [|p pods IH]; intros m.
  - reflexivity.
  - unfold count_pods in *. simpl. rewrite IH. simpl. rewrite filter_cons.
    destruct (decide (pod_Name p = x)) as [<-|Hne].
    + rewrite lookup_insert. simpl.
      repeat case_decide; simpl in *; try congruence; try lia; f_equal; lia.
    + rewrite lookup_insert_ne by exact Hne. reflexivity.
Qed.

Lemma controller_loop_counts_gen k8s ws u m x :
  (fold_left (controller_step k8s) ws (u, m)).2 !! x =
  if decide (length (filter (fun y => y = x) (listed_names k8s ws)) = 0%nat) then m !! x
  else Some (default 0%nat (m !! x) + length (filter (fun y => y = x) (listed_names k8s ws)))%nat.
Proof.
  revert u m. induction ws as [|w ws IH]; intros u m.
  - reflexivity.
  - simpl. unfold listed_names in *. simpl.
    destruct (GetPods k8s {| LabelSelector := w_MatchLabels w |}) as [pods|e].
    + rewrite IH, count_pods_lookup, filter_app, length_app.
      generalize (length (filter (fun y => y = x) (map pod_Name pods))) as a.
      generalize (length (filter (fun y => y = x) (flat_map (fun w =>
        match GetPods k8s {| LabelSelector := w_MatchLabels w |} with
        | Ok pods => map pod_Name pods
        | Err _ => []
        end) ws))) as b.
      intros b a. repeat case_decide; simpl; try reflexivity; try lia; f_equal; lia.
    + rewrite IH. reflexivity.
Qed.

(** X2: the map a controller loop of [GetUniquePods] builds
    ([deploymentPods], [statefulSetsPods]) has an entry exactly for the pod
    names its label-selector listings returned, holding the number of
    listings (counted with repetition) that returned that name. *)
Theorem controller_loop_counts k8s ws uniquePods x :
  (controller_loop k8s ws uniquePods).2 !! x =
  if decide (length (filter (fun y => y = x) (listed_names k8s ws)) = 0%nat) then None
  else Some (length (filter (fun y => y = x) (listed_names k8s ws))).
Proof.
  unfold controller_loop. rewrite controller_loop_counts_gen, lookup_empty. reflexivity.
Qed.

(** ** Errors of GetUniquePods *)

(** X3: [GetUniquePods] fails exactly when the deployment listing, the
    stateful-set listing or the namespace pod listing fails, with the error
    of the first one that does; a failing label-selector listing of a single
    controller never makes it fail. *)
Theorem GetUniquePods_errors k8s e :
  GetUniquePods k8s = Err e <->
  GetDeployments k8s = Err e \/
  (exists ds, GetDeployments k8s = Ok ds /\ GetStatefulSets k8s = Err e) \/
  (exists ds ss, GetDeployments k8s = Ok ds /\ GetStatefulSets k8s = Ok ss /\
                 GetPods k8s NoListOptions = Err e).
Proof.
  unfold GetUniquePods. split.
  - intros H.
    destruct (GetDeployments k8s) as [ds|e1] eqn:Hd; [|injection H as ->; left; reflexivity].
    destruct (controller_loop k8s ds []) as [u1 dm].
    destruct (GetStatefulSets k8s) as [ss|e2] eqn:Hs;
      [|injection H as ->; right; left; eauto].
    destruct (controller_loop k8s ss u1) as [u2 sm].
    destruct (GetPods k8s NoListOptions) as [pl|e3] eqn:Hp; [discriminate|].
    injection H as ->. right; right; eauto.
  - intros [H|[(ds & Hd & Hs)|(ds & ss & Hd & Hs & Hp)]].
    + rewrite H. reflexivity.
    + rewrite Hd. destruct (controller_loop k8s ds []). rewrite Hs. reflexivity.
    + rewrite Hd. destruct (controller_loop k8s ds []) as [u1 dm]. rewrite Hs.
      destruct (controller_loop k8s ss u1). rewrite Hp. reflexivity.
Qed.

(** ** Exit codes of executions *)



(** ** Result records and their text rendering *)

Lemma length_app_string a b :
  String.length (a +:+ b) = (String.length a + String.length b)%nat.
Proof. induction a as [|c a IH]; simpl; [reflexivity|]. rewrite IH. reflexivity. Qed.

Lemma append_nil_string s : s +:+ "" = s.
Proof.
  induction s as [|c s IH]; [reflexivity|].
  change (String c (s +:+ "") = String c s). rewrite IH. reflexivity.
Qed.

Lemma prefix_app_string a b : String.prefix a (a +:+ b) = true.
Proof.
  induction a as [|c a IH]; simpl; [destruct b; reflexivity|].
  destruct (ascii_dec c c); [exact IH|contradiction].
Qed.

Lemma substring_all n s : (String.length s <= n)%nat -> String.substring 0 n s = s.
Proof.
  revert n. induction s as [|c s IH]; intros [|n] H; simpl in *; try reflexivity; try lia.
  rewrite IH by lia. reflexivity.
Qed.

(** X5: the stdin summary [NewEnumerationStatus] records is never longer
    than 52 bytes and always starts with the first 40 bytes of stdin (all
    of it when it is shorter). *)
Theorem NewEnumerationStatus_summary_bound s args ns :
  (String.length (es_Stdin (NewEnumerationStatus s args ns)) <= 52)%nat /\
  String.prefix (String.substring 0 40 s) (es_Stdin (NewEnumerationStatus s args ns)) = true.
Proof.
  unfold NewEnumerationStatus. cbn [es_Stdin]. case_bool_decide as H.
  - destruct (substring_first 40 s ltac:(lia)) as [Hl _].
    rewrite length_app_string, Hl. split; [simpl; lia|apply prefix_app_string].
  - rewrite substring_all by lia. split; [lia|].
    rewrite <- (append_nil_string s) at 2. apply prefix_app_string.
Qed.

Lemma Split_length s sep :
  length (Split s sep) = S (length (filter (fun c => c = sep) (String.list_ascii_of_string s))).
Proof.
  induction s as [|c s IH]; simpl; [reflexivity|]. rewrite filter_cons.
  destruct (Ascii.eqb c sep) eqn:E.
  - apply Ascii.eqb_eq in E as ->. rewrite decide_True by reflexivity. simpl. rewrite IH. reflexivity.
  - rewrite decide_False by (intros ->; rewrite Ascii.eqb_refl in E; discriminate).
    destruct (Split s sep) as [|r rs] eqn:Es; [exfalso; exact (Split_not_nil s sep Es)|].
    simpl in *. exact IH.
Qed.

Lemma Split_trailing_sep t sep :
  exists l, l <> [] /\ Split (t +:+ String sep "") sep = l ++ [""].
Proof.
  induction t as [|c t (l & Hl & IH)].
  - exists [""]. split; [discriminate|]. simpl. rewrite Ascii.eqb_refl. reflexivity.
  - change (String c t +:+ String sep "") with (String c (t +:+ String sep "")). simpl.
    rewrite IH. destruct (Ascii.eqb c sep).
    + exists ("" :: l). split; [discriminate|reflexivity].
    + destruct l as [|r l0]; [congruence|].
      exists (String c r :: l0). split; [discriminate|reflexivity].
Qed.

(** X6: [NewExecutionStatus] stores each captured text as one line more
    than the text has newline bytes, so a text ending in a newline ends with
    an empty line. *)
Theorem NewExecutionStatus_line_counts pod container retCode error stdout stderr :
  let st := NewExecutionStatus pod container retCode error stdout stderr in
  length (st_Stdout st) =
    S (length (filter (fun c => c = newline) (String.list_ascii_of_string stdout))) /\
  length (st_Stderr st) =
    S (length (filter (fun c => c = newline) (String.list_ascii_of_string stderr))) /\
  length (st_Error st) =
    S (length (filter (fun c => c = newline) (String.list_ascii_of_string error))) /\
  (forall t, stdout = t +:+ nl -> last (st_Stdout st) = Some "").
Proof.
  simpl. split; [apply Split_length|]. split; [apply Split_length|].
  split; [apply Split_length|].
  intros t ->. unfold nl. destruct (Split_trailing_sep t newline) as (l & _ & ->).
  apply last_snoc.
Qed.

Lemma TrimRight_newline_empty s :
  TrimRight_newline s = "" <-> Forall (fun c => c = newline) (String.list_ascii_of_string s).
Proof.
  induction s as [|c s IH]; simpl.
  - split; [constructor|reflexivity].
  - rewrite Forall_cons. destruct (Ascii.eqb c newline) eqn:E; simpl.
    + apply Ascii.eqb_eq in E. destruct (String.eqb (TrimRight_newline s) "") eqn:Er; simpl.
      * apply String.eqb_eq in Er. split; [intros _; split; [exact E|apply IH, Er]|reflexivity].
      * apply String.eqb_neq in Er. split; [discriminate|]. intros [_ H]. apply IH in H.
        contradiction.
    + split; [discriminate|]. intros [H _]. rewrite H, Ascii.eqb_refl in E. discriminate.
Qed.

Lemma TrimLeft_newline_shape s :
  (TrimLeft_newline s = "" <-> Forall (fun c => c = newline) (String.list_ascii_of_string s)) /\
  (forall c t, TrimLeft_newline s = String c t -> c <> newline).
Proof.
  induction s as [|c s [IH1 IH2]]; simpl.
  - split; [split; [constructor|reflexivity]|discriminate].
  - rewrite Forall_cons. destruct (Ascii.eqb c newline) eqn:E.
    + apply Ascii.eqb_eq in E. split; [|exact IH2]. rewrite IH1. tauto.
    + split.
      * split; [discriminate|]. intros [H _]. rewrite H, Ascii.eqb_refl in E. discriminate.
      * intros c' t [= <- _] H. rewrite H, Ascii.eqb_refl in E. discriminate.
Qed.

Lemma Trim_newline_empty s :
  Trim_newline s = "" <-> Forall (fun c => c = newline) (String.list_ascii_of_string s).
Proof.
  unfold Trim_newline. rewrite TrimRight_newline_empty.
  destruct (TrimLeft_newline_shape s) as [H1 H2]. rewrite <- H1.
  destruct (TrimLeft_newline s) as [|c t] eqn:E; simpl.
  - split; [reflexivity|constructor].
  - split; [|discriminate]. intros Hf. apply Forall_cons in Hf as [Hc _].
    exfalso. exact (H2 c t eq_refl Hc).
Qed.

(** X7: the text rendering of an execution status built by
    [NewExecutionStatus] prints the pod and container, the exit code with
    its table description, an error line only when the error text holds a
    byte other than a newline, and then the captured stdout and stderr byte
    for byte (with no separator added after stdout). *)
Theorem render_status_NewExecutionStatus pod container retCode error stdout stderr :
  render_status (NewExecutionStatus pod container retCode error stdout stderr) =
  "CONTAINER: " +:+ pod +:+ "/" +:+ container +:+ nl +:+
  "Returned exit code: " +:+ pretty retCode +:+ " [" +:+
    GetExitCodeDescription retCode +:+ "]" +:+ nl +:+
  (if bool_decide (Forall (fun c => c = newline) (String.list_ascii_of_string error))
   then "" else "Returned error: " +:+ error +:+ nl) +:+
  "Standard output:" +:+ nl +:+ stdout +:+ "Standard error:" +:+ nl +:+ stderr +:+ nl.
Proof.
  unfold render_status, NewExecutionStatus.
  cbn [st_Pod st_Container st_RetCode st_Error st_Stdout st_Stderr].
  rewrite !Join_Split.
  destruct (String.eqb (Trim_newline error) "") eqn:E; cbn [negb].
  - apply String.eqb_eq, Trim_newline_empty in E. rewrite bool_decide_eq_true_2 by exact E.
    reflexivity.
  - rewrite bool_decide_eq_false_2; [reflexivity|].
    intros H. apply Trim_newline_empty, String.eqb_eq in H. congruence.
Qed.

(** ** The orchestrator *)

Lemma bind_Done_inv {A B} (m : M A) (k : A -> M B) tr b tr' :
  mbind k m tr = (Done b, tr') ->
  exists a tr'', m tr = (Done a, tr'') /\ k a tr'' = (Done b, tr').
Proof. unfold mbind, M_bind. destruct (m tr) as [[msg|a] tr'']; [discriminate|eauto]. Qed.

Lemma default_args_cases buf args :
  bool_decide (String.length buf = 0%nat) && bool_decide (args = []) = false ->
  (args = [] -> default_args buf args = ["sh"] /\ buf <> "") /\
  (args <> [] -> default_args buf args = args).
Proof.
  unfold default_args. intros Hcmd. split.
  - intros ->. revert Hcmd. repeat case_bool_decide; simpl; intros Hcmd; try congruence; try lia.
    split; [reflexivity|]. intros ->. simpl in *. lia.
  - intros Hne. repeat case_bool_decide; simpl in *; congruence.
Qed.

(** X8: [run] sends no request to the API server when the kubeconfig
    cannot be loaded or stdin cannot be read: both stop it with a fatal
    error (the config error, or "Failed to read stdin: " and the read
    error). *)
Theorem run_setup_failures cl fl stdin args :
  (forall msg, cl_ConfigError cl = Some msg -> run cl fl stdin args [] = (Fatal msg, [])) /\
  (forall msg, cl_ConfigError cl = None -> stdin = StdinReadError msg ->
     run cl fl stdin args [] = (Fatal ("Failed to read stdin: " +:+ msg +:+ nl), [])).
Proof.
  unfold run, k8sInit, NewK8SExec. split.
  - intros msg H. rewrite H. reflexivity.
  - intros msg H ->. rewrite H. reflexivity.
Qed.

(** X9: with a container but no pod given, [run] matches none of its
    cases: it succeeds with no execution status and sends no request to
    the API server. *)
Theorem run_container_without_pod cl fl stdin args buf :
  cl_ConfigError cl = None -> captured stdin = Some buf -> (buf <> "" \/ args <> []) ->
  pod fl = "" -> container fl <> "" ->
  exists es, run cl fl stdin args [] = (Done es, []) /\ es_Statuses es = [].
Proof.
  intros Hcfg Hcap Hcmd Hpod Hc. unfold run, k8sInit, NewK8SExec. rewrite Hcfg.
  unfold mret, M_ret, mbind, M_bind.
  rewrite (capture_stdin_ok _ _ _ Hcap), (command_present _ _ Hcmd).
  rewrite Hpod, (String_eqb_neq _ _ Hc). simpl. eexists; split; reflexivity.
Qed.

Lemma run_container_without_pod_witness :
  let cl := Fixture.cluster [Fixture.web1] [] [] in
  let fl := Fixture.flags "" "app" in
  cl_ConfigError cl = None /\ captured (StdinPipe "id") = Some "id" /\
  ("id" <> "" \/ @nil string <> []) /\ pod fl = "" /\ container fl <> "" /\
  exists es, run cl fl (StdinPipe "id") [] [] = (Done es, []) /\ es_Statuses es = [].
Proof.
  intros cl fl.
  assert (Hcmd : "id" <> "" \/ @nil string <> []) by (left; discriminate).
  assert (Hc : container fl <> "") by discriminate.
  split; [reflexivity|]. split; [reflexivity|]. split; [exact Hcmd|].
  split; [reflexivity|]. split; [exact Hc|].
  apply (run_container_without_pod cl fl (StdinPipe "id") [] "id");
    [reflexivity | reflexivity | exact Hcmd | reflexivity | exact Hc].
Defined.

(** X10: whenever [run] succeeds, the recorded command is the given one,
    or ["sh"] when none was given (stdin then being non-empty), the recorded
    stdin is the summary of the captured stdin, and the recorded namespace
    is the namespace flag. *)
Theorem run_success_record cl fl stdin args buf es tr :
  captured stdin = Some buf -> run cl fl stdin args [] = (Done es, tr) ->
  (args = [] -> es_Args es = ["sh"] /\ buf <> "") /\
  (args <> [] -> es_Args es = args) /\
  es_Stdin es = es_Stdin (NewEnumerationStatus buf (es_Args es) (namespace fl)) /\
  es_Namespace es = namespace fl.
Proof.
  intros Hcap H. unfold run in H.
  apply bind_Done_inv in H as ([] & tr1 & H1 & H).
  unfold k8sInit in H1. destruct (cl_ConfigError cl); [discriminate|].
  apply bind_Done_inv in H as (k8s & tr2 & H2 & H).
  apply bind_Done_inv in H as (b & tr3 & H3 & H).
  rewrite (capture_stdin_ok _ _ _ Hcap) in H3. simplify_eq.
  destruct (bool_decide (String.length b = 0%nat) && bool_decide (args = [])) eqn:Ecmd;
    [unfold fatal in H; discriminate|].
  cbv zeta in H.
  apply bind_Done_inv in H as (statuses & tr4 & _ & H).
  unfold mret, M_ret in H. simplify_eq. cbn [es_Args es_Stdin es_Namespace].
  destruct (default_args_cases b args Ecmd) as [Hd1 Hd2].
  split; [exact Hd1|]. split; [exact Hd2|]. split; reflexivity.
Qed.

Lemma run_success_record_witness :
  captured (StdinPipe "id") = Some "id" /\
  run (Fixture.cluster [Fixture.web1] [] []) (Fixture.flags "web-1" "") (StdinPipe "id") [] [] =
    (Done (match fst (run (Fixture.cluster [Fixture.web1] [] []) (Fixture.flags "web-1" "")
                        (StdinPipe "id") [] []) with
           | Done es => es | Fatal _ => NewEnumerationStatus "" [] "" end),
     snd (run (Fixture.cluster [Fixture.web1] [] []) (Fixture.flags "web-1" "")
            (StdinPipe "id") [] [])) /\
  ((@nil string = [] ->
      es_Args (match fst (run (Fixture.cluster [Fixture.web1] [] []) (Fixture.flags "web-1" "")
                            (StdinPipe "id") [] []) with
               | Done es => es | Fatal _ => NewEnumerationStatus "" [] "" end) = ["sh"] /\
      "id" <> "") /\
   (@nil string <> [] ->
      es_Args (match fst (run (Fixture.cluster [Fixture.web1] [] []) (Fixture.flags "web-1" "")
                            (StdinPipe "id") [] []) with
               | Done es => es | Fatal _ => NewEnumerationStatus "" [] "" end) = []) /\
   es_Stdin (match fst (run (Fixture.cluster [Fixture.web1] [] []) (Fixture.flags "web-1" "")
                          (StdinPipe "id") [] []) with
             | Done es => es | Fatal _ => NewEnumerationStatus "" [] "" end) =
     es_Stdin (NewEnumerationStatus "id"
       (es_Args (match fst (run (Fixture.cluster [Fixture.web1] [] []) (Fixture.flags "web-1" "")
                              (StdinPipe "id") [] []) with
                 | Done es => es | Fatal _ => NewEnumerationStatus "" [] "" end))
       (namespace (Fixture.flags "web-1" ""))) /\
   es_Namespace (match fst (run (Fixture.cluster [Fixture.web1] [] []) (Fixture.flags "web-1" "")
                              (StdinPipe "id") [] []) with
                 | Done es => es | Fatal _ => NewEnumerationStatus "" [] "" end) =
     namespace (Fixture.flags "web-1" "")).
Proof.
  assert (H : run (Fixture.cluster [Fixture.web1] [] []) (Fixture.flags "web-1" "")
                (StdinPipe "id") [] [] =
              (Done (match fst (run (Fixture.cluster [Fixture.web1] [] []) (Fixture.flags "web-1" "")
                                  (StdinPipe "id") [] []) with
                     | Done es => es | Fatal _ => NewEnumerationStatus "" [] "" end),
               snd (run (Fixture.cluster [Fixture.web1] [] []) (Fixture.flags "web-1" "")
                      (StdinPipe "id") [] []))) by (vm_compute; reflexivity).
  split; [reflexivity|]. split; [exact H|].
  exact (run_success_record _ _ (StdinPipe "id") [] "id" _ _ eq_refl H).
Defined.

(** X11: with a pod name given, a pod that cannot be fetched stops [run]
    with the fetch error after that single request, with or without a
    container: nothing is executed. *)
Theorem run_named_pod_missing cl fl stdin args buf e :
  cl_ConfigError cl = None -> captured stdin = Some buf -> (buf <> "" \/ args <> []) ->
  pod fl <> "" -> cl_GetPod cl (namespace fl) (pod fl) = Err e ->
  run cl fl stdin args [] = (Fatal (Error e), [CallGetPod (namespace fl) (pod fl)]).
Proof.
  intros Hcfg Hcap Hcmd Hpod Hget.
  unfold run, k8sInit, NewK8SExec. rewrite Hcfg.
  unfold mret, M_ret, mbind, M_bind.
  rewrite (capture_stdin_ok _ _ _ Hcap), (command_present _ _ Hcmd).
  rewrite (String_eqb_neq _ _ Hpod). cbn [negb andb].
  unfold api_call_or_exit. rewrite Hget.
  destruct (String.eqb (container fl) ""); reflexivity.
Qed.

Lemma run_named_pod_missing_witness :
  let cl := Fixture.cluster [Fixture.web1] [] [] in
  let fl := Fixture.flags "web-2" "app" in
  cl_ConfigError cl = None /\ captured (StdinPipe "id") = Some "id" /\
  ("id" <> "" \/ @nil string <> []) /\ pod fl <> "" /\
  cl_GetPod cl (namespace fl) (pod fl) = Err (PlainError "pods web-2 not found") /\
  run cl fl (StdinPipe "id") [] [] =
    (Fatal (Error (PlainError "pods web-2 not found")), [CallGetPod (namespace fl) (pod fl)]).
Proof.
  intros cl fl.
  assert (Hcmd : "id" <> "" \/ @nil string <> []) by (left; discriminate).
  assert (Hpod : pod fl <> "") by discriminate.
  assert (Hget : cl_GetPod cl (namespace fl) (pod fl) = Err (PlainError "pods web-2 not found"))
    by (vm_compute; reflexivity).
  split; [reflexivity|]. split; [reflexivity|]. split; [exact Hcmd|].
  split; [exact Hpod|]. split; [exact Hget|].
  exact (run_named_pod_missing cl fl (StdinPipe "id") [] "id" _ eq_refl eq_refl Hcmd Hpod Hget).
Defined.

(** X12: with a pod and a container given and the pod Running, [run]
    sends exactly two requests, the pod fetch and one execution in the named
    container (whether or not the pod declares it), fed with the whole
    captured stdin, and records that single status. *)
Theorem run_named_container cl fl stdin args buf p :
  cl_ConfigError cl = None -> captured stdin = Some buf -> (buf <> "" \/ args <> []) ->
  pod fl <> "" -> container fl <> "" -> cl_GetPod cl (namespace fl) (pod fl) = Ok p ->
  is_running p = true ->
  exists es, run cl fl stdin args [] =
    (Done es, [CallGetPod (namespace fl) (pod fl);
               CallExec (namespace fl) (pod fl) (container fl) (default_args buf args)]) /\
    es_Statuses es = [Exec {| k_Client := cl; k_Namespace := namespace fl |}
                        (pod fl) (container fl) (default_args buf args) (Some buf)].
Proof.
  intros Hcfg Hcap Hcmd Hpod Hc Hget Hr.
  unfold run, k8sInit, NewK8SExec. rewrite Hcfg.
  unfold mret, M_ret, mbind, M_bind.
  rewrite (capture_stdin_ok _ _ _ Hcap), (command_present _ _ Hcmd).
  rewrite (String_eqb_neq _ _ Hpod), (String_eqb_neq _ _ Hc). cbn [negb andb].
  unfold api_call_or_exit. rewrite Hget, Hr. cbn [negb].
  unfold Exec_call, api_call. eexists; split; reflexivity.
Qed.

Lemma run_named_container_witness :
  let cl := Fixture.cluster [Fixture.web1] [] [] in
  let fl := Fixture.flags "web-1" "app" in
  cl_ConfigError cl = None /\ captured (StdinPipe "id") = Some "id" /\
  ("id" <> "" \/ @nil string <> []) /\ pod fl <> "" /\ container fl <> "" /\
  cl_GetPod cl (namespace fl) (pod fl) = Ok Fixture.web1 /\ is_running Fixture.web1 = true /\
  exists es, run cl fl (StdinPipe "id") [] [] =
    (Done es, [CallGetPod (namespace fl) (pod fl);
               CallExec (namespace fl) (pod fl) (container fl) (default_args "id" [])]) /\
    es_Statuses es = [Exec {| k_Client := cl; k_Namespace := namespace fl |}
                        (pod fl) (container fl) (default_args "id" []) (Some "id")].
Proof.
  intros cl fl.
  assert (Hcmd : "id" <> "" \/ @nil string <> []) by (left; discriminate).
  assert (Hpod : pod fl <> "") by discriminate.
  assert (Hc : container fl <> "") by discriminate.
  split; [reflexivity|]. split; [reflexivity|]. split; [exact Hcmd|].
  split; [exact Hpod|]. split; [exact Hc|]. split; [reflexivity|]. split; [reflexivity|].
  exact (run_named_container cl fl (StdinPipe "id") [] "id" Fixture.web1
           eq_refl eq_refl Hcmd Hpod Hc eq_refl eq_refl).
Defined.

(** X13: with neither a pod nor a container given, the requests [run]
    sends are one listing of the namespace's pods without a label selector,
    then one execution per container of each Running pod, in listing and
    declaration order; no pod is fetched by name. *)
Theorem run_all_pods_requests cl fl stdin args buf pods :
  cl_ConfigError cl = None -> captured stdin = Some buf -> (buf <> "" \/ args <> []) ->
  pod fl = "" -> container fl = "" -> cl_ListPods cl (namespace fl) NoListOptions = Ok pods ->
  snd (run cl fl stdin args []) =
    CallListPods (namespace fl) NoListOptions ::
    flat_map (fun p =>
      if is_running p
      then map (fun c => CallExec (namespace fl) (pod_Name p) (c_Name c) (default_args buf args))
             (pod_Containers p)
      else []) pods.
Proof.
  intros Hcfg Hcap Hcmd Hpod Hcont Hl.
  unfold run, k8sInit, NewK8SExec. rewrite Hcfg.
  unfold mret, M_ret, mbind, M_bind.
  rewrite (capture_stdin_ok _ _ _ Hcap), (command_present _ _ Hcmd).
  rewrite Hpod, Hcont. simpl.
  unfold api_call_or_exit, GetPods. simpl. rewrite Hl, exec_pods_run. reflexivity.
Qed.

Lemma run_all_pods_requests_witness :
  let cl := Fixture.cluster [Fixture.web1; Fixture.web2] [] [] in
  let fl := Fixture.flags "" "" in
  cl_ConfigError cl = None /\ captured (StdinPipe "id") = Some "id" /\
  ("id" <> "" \/ @nil string <> []) /\ pod fl = "" /\ container fl = "" /\
  cl_ListPods cl (namespace fl) NoListOptions = Ok [Fixture.web1; Fixture.web2] /\
  snd (run cl fl (StdinPipe "id") [] []) =
    CallListPods (namespace fl) NoListOptions ::
    flat_map (fun p =>
      if is_running p
      then map (fun c => CallExec (namespace fl) (pod_Name p) (c_Name c) (default_args "id" []))
             (pod_Containers p)
      else []) [Fixture.web1; Fixture.web2].
Proof.
  intros cl fl.
  assert (Hcmd : "id" <> "" \/ @nil string <> []) by (left; discriminate).
  assert (Hl : cl_ListPods cl (namespace fl) NoListOptions = Ok [Fixture.web1; Fixture.web2])
    by (vm_compute; reflexivity).
  split; [reflexivity|]. split; [reflexivity|]. split; [exact Hcmd|].
  split; [reflexivity|]. split; [reflexivity|]. split; [exact Hl|].
  exact (run_all_pods_requests cl fl (StdinPipe "id") [] "id" _
           eq_refl eq_refl Hcmd eq_refl eq_refl Hl).
Defined.
